(** * Dissent::Utils::StartStop: a start/stop lifecycle guard

    Shallow embedding of [src/Utils/StartStop.cpp].  The object is a record
    of its two private flags; member functions are computations in a small
    state monad over that record.  The monad also emits a ghost log of the
    [Start]/[Stop] invocations a computation performs, so that statements
    about "every call, whoever issued it" can be made about the code itself
    (the log is write-only: no computation can read it).  Calls resolve to
    the member functions of [StartStop] itself; what a derived class does in
    its own start and stop logic is outside this unit. *)

From Stdlib Require Import Bool List Lia.
Import ListNotations.

(** ** The object *)

(** The two data members, [bool _started; bool _stopped;]. *)
Record StartStop : Type := mkStartStop {
  _started : bool;
  _stopped : bool
}.

(** The spec's derived three-valued view of the two flags. *)
Module State.
Inductive t : Type := NotStarted | Started | Stopped.
End State.

Definition lifecycle (g : StartStop) : State.t :=
  if _stopped g then State.Stopped
  else if _started g then State.Started
  else State.NotStarted.

(** ** Ghost log of member calls *)

Inductive Method : Type := MStart | MStop.

Record Call : Type := mkCall {
  call_method : Method;
  call_pre    : StartStop;   (* object on entry *)
  call_ret    : bool;        (* value returned *)
  call_post   : StartStop    (* object on return *)
}.

(** ** The monad of member functions *)

Definition M (A : Type) : Type := StartStop -> A * StartStop * list Call.

Definition ret {A} (a : A) : M A := fun g => (a, g, []).

Definition bind {A B} (m : M A) (k : A -> M B) : M B :=
  fun g =>
    let '(a, g1, l1) := m g in
    let '(b, g2, l2) := k a g1 in
    (b, g2, l1 ++ l2).

Declare Scope startstop_scope.
Delimit Scope startstop_scope with ss.
Notation "x <- m ;; k" := (bind m (fun x => k))
  (at level 61, m at next level, right associativity) : startstop_scope.
Notation "m ;; k" := (bind m (fun _ => k))
  (at level 61, right associativity) : startstop_scope.
Local Open Scope startstop_scope.

(** Reading a member and assigning to one. *)
Definition read {A} (f : StartStop -> A) : M A := fun g => (f g, g, []).

Definition assign_started (b : bool) : M unit :=
  fun g => (tt, mkStartStop b (_stopped g), []).

Definition assign_stopped (b : bool) : M unit :=
  fun g => (tt, mkStartStop (_started g) b, []).

(** C++ [a || b] and [a && b]: the right operand is evaluated only when the
    left one does not decide the result. *)
Definition orM (a b : M bool) : M bool :=
  x <- a ;; if x then ret true else b.

Definition andM (a b : M bool) : M bool :=
  x <- a ;; if x then b else ret false.

Definition notM (a : M bool) : M bool :=
  x <- a ;; ret (negb x).

(** A member function whose invocations are logged: one entry per call,
    holding the object on entry, the returned value and the object on
    return, followed by whatever the body logged itself. *)
Definition logged (m : Method) (body : M bool) : M bool :=
  fun g =>
    let '(r, g', l) := body g in
    (r, g', mkCall m g r g' :: l).

(** Components of a finished computation. *)
Definition retval {A} (x : A * StartStop * list Call) : A := fst (fst x).
Definition after {A} (x : A * StartStop * list Call) : StartStop := snd (fst x).
Definition calls {A} (x : A * StartStop * list Call) : list Call := snd x.

(** ** The class *)

(** [StartStop::StartStop() : _started(false), _stopped(false) {}] *)
Definition new_StartStop : StartStop := mkStartStop false false.

(** [bool StartStop::Start()] *)
Definition Start : M bool :=
  logged MStart (
    c <- orM (read _started) (read _stopped) ;;
    if c then
      ret false
    else
      assign_started true ;;
      ret true).

(** [bool StartStop::Stop()] *)
Definition Stop : M bool :=
  logged MStop (
    c <- read _stopped ;;
    if c then
      ret false
    else
      assign_stopped true ;;
      ret true).

(** Modelled from the spec: the header [StartStop.hpp], which declares the
    accessors [Started()] and [Stopped()], is not among the sources; the spec
    describes them as plain reads of the stored flags. *)
Definition Started : M bool := read _started.
Definition Stopped : M bool := read _stopped.

(** [void StartStop::DestructorCheck()] *)
Definition DestructorCheck : M unit :=
  c <- andM (notM Stopped) Started ;;
  if c then
    Stop ;; ret tt
  else
    ret tt.

(** ** Sequences of calls made by an owner *)

Inductive Op : Type := OpStart | OpStop | OpDestructorCheck.

Definition exec (o : Op) : M unit :=
  match o with
  | OpStart => Start ;; ret tt
  | OpStop => Stop ;; ret tt
  | OpDestructorCheck => DestructorCheck
  end.

Fixpoint run (ops : list Op) : M unit :=
  match ops with
  | [] => ret tt
  | o :: rest => exec o ;; run rest
  end.

(** The objects an owner can hold: whatever some sequence of calls makes of
    a freshly constructed one. *)
Definition reachable (g : StartStop) : Prop :=
  exists ops, after (run ops new_StartStop) = g.

(** The objects seen between the calls of a sequence, the first included. *)
Fixpoint trajectory (ops : list Op) (g : StartStop) : list StartStop :=
  match ops with
  | [] => [g]
  | o :: rest => g :: trajectory rest (after (exec o g))
  end.

(** How many times a flag goes from [false] to [true] along a list of
    successive objects. *)
Fixpoint rises (f : StartStop -> bool) (l : list StartStop) : nat :=
  match l with
  | a :: ((b :: _) as tl) =>
      (if negb (f a) && f b then 1 else 0) + rises f tl
  | _ => 0
  end.

(** Logged calls of one method that returned [true]. *)
Definition succeeded (m : Method) (c : Call) : bool :=
  match m, call_method c with
  | MStart, MStart | MStop, MStop => call_ret c
  | _, _ => false
  end.

Definition successes (m : Method) (l : list Call) : list Call :=
  filter (succeeded m) l.

(** The [Start]/[Stop] calls the owner itself makes in a sequence. *)
Fixpoint requested (ops : list Op) : list Method :=
  match ops with
  | [] => []
  | OpStart :: rest => MStart :: requested rest
  | OpStop :: rest => MStop :: requested rest
  | OpDestructorCheck :: rest => requested rest
  end.

(** Every log entry is what the named member function really does on the
    recorded object. *)
Definition genuine (c : Call) : Prop :=
  match call_method c with
  | MStart => Start (call_pre c) = (call_ret c, call_post c, [c])
  | MStop => Stop (call_pre c) = (call_ret c, call_post c, [c])
  end.

(** Whether every [Start] call of a log that returned [true] is followed,
    later in the log, by a [Stop] call that returned [true]. *)
Fixpoint paired (l : list Call) : bool :=
  match l with
  | [] => true
  | c :: rest =>
      (if succeeded MStart c then existsb (succeeded MStop) rest else true)
      && paired rest
  end.

(** Whether the first [Start]/[Stop] call the owner makes is a [Start]. *)
Definition starts_first (ops : list Op) : bool :=
  match requested ops with
  | MStart :: _ => true
  | _ => false
  end.

(** The transition table of the three-state view, as the spec draws it:
    NotStarted goes to Started on [Start()] and to Stopped on [Stop()];
    Started goes to Stopped on [Stop()] and on the teardown hook; every other
    call leaves the state where it is. *)
Definition spec_transition (o : Op) (st : State.t) : State.t :=
  match o, st with
  | OpStart, State.NotStarted => State.Started
  | OpStop, State.NotStarted => State.Stopped
  | OpStop, State.Started => State.Stopped
  | OpDestructorCheck, State.Started => State.Stopped
  | _, _ => st
  end.

(** ** Sanity runs *)

Example run_start_stop :
  run [OpStart; OpStop; OpStart; OpStop] new_StartStop
  = (tt, mkStartStop true true,
     [ mkCall MStart (mkStartStop false false) true (mkStartStop true false);
       mkCall MStop (mkStartStop true false) true (mkStartStop true true);
       mkCall MStart (mkStartStop true true) false (mkStartStop true true);
       mkCall MStop (mkStartStop true true) false (mkStartStop true true) ]).
Proof. reflexivity. Qed.

Example run_start_destroy :
  run [OpStart; OpDestructorCheck] new_StartStop
  = (tt, mkStartStop true true,
     [ mkCall MStart (mkStartStop false false) true (mkStartStop true false);
       mkCall MStop (mkStartStop true false) true (mkStartStop true true) ]).
Proof. reflexivity. Qed.

Example run_destroy_unstarted :
  run [OpDestructorCheck] new_StartStop = (tt, mkStartStop false false, []).
Proof. reflexivity. Qed.

(** ** Basic facts *)

Lemma lifecycle_NotStarted (g : StartStop) :
  lifecycle g = State.NotStarted <-> _started g = false /\ _stopped g = false.
Proof.
  unfold lifecycle.
  destruct (_stopped g), (_started g); split;
    solve [ discriminate | intros [? ?]; discriminate | auto ].
Qed.

Lemma lifecycle_Started (g : StartStop) :
  lifecycle g = State.Started <-> _started g = true /\ _stopped g = false.
Proof.
  unfold lifecycle.
  destruct (_stopped g), (_started g); split;
    solve [ discriminate | intros [? ?]; discriminate | auto ].
Qed.

Lemma lifecycle_Stopped (g : StartStop) :
  lifecycle g = State.Stopped <-> _stopped g = true.
Proof.
  unfold lifecycle.
  destruct (_stopped g), (_started g); split; solve [ discriminate | auto ].
Qed.

(** What one call computes, branch by branch. *)

Lemma Start_eq (g : StartStop) :
  Start g =
    if _started g || _stopped g
    then (false, g, [mkCall MStart g false g])
    else let g' := mkStartStop true (_stopped g) in
         (true, g', [mkCall MStart g true g']).
Proof. destruct g as [[] []]; reflexivity. Qed.

Lemma Stop_eq (g : StartStop) :
  Stop g =
    if _stopped g
    then (false, g, [mkCall MStop g false g])
    else let g' := mkStartStop (_started g) true in
         (true, g', [mkCall MStop g true g']).
Proof. destruct g as [[] []]; reflexivity. Qed.

Lemma DestructorCheck_eq (g : StartStop) :
  DestructorCheck g =
    if negb (_stopped g) && _started g
    then (tt, after (Stop g), calls (Stop g))
    else (tt, g, []).
Proof. destruct g as [[] []]; reflexivity. Qed.

(** ** Start and Stop *)

(** C1.  [Start()] returns [true] exactly when the guard is in state
    NotStarted, that is when neither flag is set, and it then sets
    [_started] (the guard becomes started, not stopped); when either flag is
    already set it returns [false] and the object is unchanged. *)
Theorem Start_spec (g : StartStop) :
  (lifecycle g = State.NotStarted <->
     _started g = false /\ _stopped g = false) /\
  (retval (Start g) = true <-> lifecycle g = State.NotStarted) /\
  (lifecycle g = State.NotStarted ->
     _started (after (Start g)) = true /\ _stopped (after (Start g)) = false) /\
  (_started g = true \/ _stopped g = true ->
     retval (Start g) = false /\ after (Start g) = g).
Proof.
  split; [apply lifecycle_NotStarted|].
  rewrite lifecycle_NotStarted, Start_eq.
  destruct g as [s t]; cbn [_started _stopped].
  destruct s, t; cbn; intuition discriminate.
Qed.

Lemma Start_spec_witness :
  (retval (Start new_StartStop) = true /\
   after (Start new_StartStop) = mkStartStop true false) /\
  (retval (Start (mkStartStop false true)) = false /\
   after (Start (mkStartStop false true)) = mkStartStop false true).
Proof.
  split.
  - destruct (Start_spec new_StartStop) as (_ & Hret & Hset & _).
    split; [apply Hret; reflexivity|].
    destruct (Hset eq_refl) as [Hs Ht].
    destruct (after (Start new_StartStop)) as [s t]; cbn in Hs, Ht.
    now rewrite Hs, Ht.
  - destruct (Start_spec (mkStartStop false true)) as (_ & _ & _ & Hno).
    apply Hno. right. reflexivity.
Defined.

(** C2.  [Stop()] returns [true] exactly when [_stopped] is not yet set,
    whatever [_started] is (so from NotStarted and from Started alike), and
    it then sets [_stopped] and leaves [_started] alone; when [_stopped] is
    already set it returns [false] and the object is unchanged. *)
Theorem Stop_spec (g : StartStop) :
  (retval (Stop g) = true <-> _stopped g = false) /\
  (retval (Stop g) = true <->
     lifecycle g = State.NotStarted \/ lifecycle g = State.Started) /\
  (_stopped g = false ->
     _stopped (after (Stop g)) = true /\
     _started (after (Stop g)) = _started g) /\
  (_stopped g = true -> retval (Stop g) = false /\ after (Stop g) = g).
Proof.
  rewrite lifecycle_NotStarted, lifecycle_Started, Stop_eq.
  destruct g as [s t]; cbn [_started _stopped].
  destruct s, t; cbn; intuition discriminate.
Qed.

Lemma Stop_spec_witness :
  (retval (Stop new_StartStop) = true /\
   _stopped (after (Stop new_StartStop)) = true /\
   _started (after (Stop new_StartStop)) = false) /\
  (retval (Stop (mkStartStop true false)) = true /\
   _stopped (after (Stop (mkStartStop true false))) = true /\
   _started (after (Stop (mkStartStop true false))) = true) /\
  (retval (Stop (mkStartStop true true)) = false /\
   after (Stop (mkStartStop true true)) = mkStartStop true true).
Proof.
  repeat apply conj.
  - apply (Stop_spec new_StartStop). reflexivity.
  - apply (Stop_spec new_StartStop). reflexivity.
  - apply (Stop_spec new_StartStop). reflexivity.
  - apply (Stop_spec (mkStartStop true false)). reflexivity.
  - apply (Stop_spec (mkStartStop true false)). reflexivity.
  - apply (proj1 (proj2 (proj2 (Stop_spec (mkStartStop true false))))).
    reflexivity.
  - apply (Stop_spec (mkStartStop true true)). reflexivity.
  - apply (Stop_spec (mkStartStop true true)). reflexivity.
Defined.

(** ** Sequencing *)

Lemma after_bind {A B} (m : M A) (k : A -> M B) (g : StartStop) :
  after (bind m k g) = after (k (retval (m g)) (after (m g))).
Proof.
  unfold bind, after, retval.
  destruct (m g) as [[a g1] l1]; cbn.
  destruct (k a g1) as [[b g2] l2]; reflexivity.
Qed.

Lemma calls_bind {A B} (m : M A) (k : A -> M B) (g : StartStop) :
  calls (bind m k g) = calls (m g) ++ calls (k (retval (m g)) (after (m g))).
Proof.
  unfold bind, after, retval, calls.
  destruct (m g) as [[a g1] l1]; cbn.
  destruct (k a g1) as [[b g2] l2]; reflexivity.
Qed.

Lemma after_run_cons (o : Op) (ops : list Op) (g : StartStop) :
  after (run (o :: ops) g) = after (run ops (after (exec o g))).
Proof. exact (after_bind (exec o) (fun _ => run ops) g). Qed.

Lemma calls_run_cons (o : Op) (ops : list Op) (g : StartStop) :
  calls (run (o :: ops) g) =
  calls (exec o g) ++ calls (run ops (after (exec o g))).
Proof. exact (calls_bind (exec o) (fun _ => run ops) g). Qed.

Lemma after_run_app (ops1 ops2 : list Op) (g : StartStop) :
  after (run (ops1 ++ ops2) g) = after (run ops2 (after (run ops1 g))).
Proof.
  revert g; induction ops1 as [|o ops1 IH]; intros g.
  - reflexivity.
  - rewrite <- app_comm_cons, !after_run_cons. apply IH.
Qed.

Lemma reachable_new : reachable new_StartStop.
Proof. exists []. reflexivity. Qed.

Lemma reachable_run (ops : list Op) (g : StartStop) :
  reachable g -> reachable (after (run ops g)).
Proof.
  intros [ops0 <-]. exists (ops0 ++ ops). apply after_run_app.
Qed.

(** One call of the owner, by method and by flags. *)

Lemma exec_Start (g : StartStop) :
  after (exec OpStart g) = after (Start g) /\
  calls (exec OpStart g) = calls (Start g).
Proof.
  cbn [exec]. rewrite after_bind, calls_bind. cbn. now rewrite app_nil_r.
Qed.

Lemma exec_Stop (g : StartStop) :
  after (exec OpStop g) = after (Stop g) /\
  calls (exec OpStop g) = calls (Stop g).
Proof.
  cbn [exec]. rewrite after_bind, calls_bind. cbn. now rewrite app_nil_r.
Qed.

Lemma exec_stopped (o : Op) (g : StartStop) :
  _stopped g = true ->
  exec o g =
    (tt, g,
     match o with
     | OpStart => [mkCall MStart g false g]
     | OpStop => [mkCall MStop g false g]
     | OpDestructorCheck => []
     end).
Proof.
  destruct g as [s t]; cbn [_stopped]; intros ->.
  destruct o, s; reflexivity.
Qed.

Lemma calls_exec_genuine (o : Op) (g : StartStop) :
  Forall genuine (calls (exec o g)).
Proof.
  destruct g as [[] []], o; cbn; repeat constructor.
Qed.

Lemma calls_run_genuine (ops : list Op) :
  forall g, Forall genuine (calls (run ops g)).
Proof.
  induction ops as [|o ops IH]; intros g.
  - constructor.
  - rewrite calls_run_cons. apply Forall_app. split.
    + apply calls_exec_genuine.
    + apply IH.
Qed.

(** ** Stopped is terminal *)

Lemma run_stopped (ops : list Op) (g : StartStop) :
  _stopped g = true ->
  after (run ops g) = g /\
  map call_method (calls (run ops g)) = requested ops /\
  Forall (fun c => call_pre c = g /\ call_ret c = false /\ call_post c = g)
         (calls (run ops g)).
Proof.
  intros Hg. induction ops as [|o ops (IHa & IHm & IHc)].
  - repeat split; constructor.
  - rewrite after_run_cons, calls_run_cons, (exec_stopped o g Hg).
    change (after (tt, g, _)) with g. repeat split.
    + exact IHa.
    + rewrite map_app, IHm. destruct o; reflexivity.
    + apply Forall_app. split; [|exact IHc].
      destruct o; repeat constructor.
Qed.

(** C3.  In any object reachable from a fresh guard whose [_stopped] flag is
    set, [Start()] and [Stop()] return [false] and change nothing, and the
    teardown hook calls neither; over any further sequence of owner calls
    the object stays as it is, the log holds exactly the owner's own
    [Start]/[Stop] calls (the hook adds none), and each of them returned
    [false] with the object unchanged. *)
Theorem Stopped_is_terminal (g : StartStop) (ops : list Op) :
  reachable g ->
  _stopped g = true ->
  (retval (Start g) = false /\ after (Start g) = g) /\
  (retval (Stop g) = false /\ after (Stop g) = g) /\
  (calls (DestructorCheck g) = [] /\ after (DestructorCheck g) = g) /\
  after (run ops g) = g /\
  map call_method (calls (run ops g)) = requested ops /\
  Forall (fun c => call_pre c = g /\ call_ret c = false /\ call_post c = g)
         (calls (run ops g)).
Proof.
  intros _ Hg. repeat apply conj; try apply (run_stopped ops g Hg).
  all: rewrite ?Start_eq, ?Stop_eq, ?DestructorCheck_eq, Hg,
         ?orb_true_r; reflexivity.
Qed.

Lemma Stopped_is_terminal_witness :
  let g := mkStartStop true true in
  let ops := [OpStart; OpDestructorCheck; OpStop; OpStart] in
  after (run ops g) = g /\
  map call_method (calls (run ops g)) = [MStart; MStop; MStart] /\
  Forall (fun c => call_pre c = g /\ call_ret c = false /\ call_post c = g)
         (calls (run ops g)).
Proof.
  intros g ops.
  assert (Hreach : reachable g) by (exists [OpStart; OpStop]; reflexivity).
  apply (Stopped_is_terminal g ops Hreach eq_refl).
Defined.

(** ** Each transition succeeds at most once *)

(** From any object: a successful [Start] is still possible only when no
    flag is set, a successful [Stop] only when [_stopped] is not. *)
Lemma successes_bound (ops : list Op) :
  forall g,
    length (successes MStart (calls (run ops g)))
      <= (if _started g || _stopped g then 0 else 1) /\
    length (successes MStop (calls (run ops g)))
      <= (if _stopped g then 0 else 1).
Proof.
  induction ops as [|o ops IH]; intros g.
  - destruct g as [[] []]; cbn; lia.
  - rewrite calls_run_cons. unfold successes in *.
    rewrite !filter_app, !length_app.
    destruct g as [[] []], o; cbn;
      match goal with
      | |- context [run ops ?g'] => specialize (IH g'); cbn in IH; lia
      end.
Qed.

Lemma success_Start_pre (c : Call) :
  genuine c -> succeeded MStart c = true ->
  lifecycle (call_pre c) = State.NotStarted.
Proof.
  unfold genuine, succeeded.
  destruct c as [[] [[] []] r post]; cbn; intros Hg Hr;
    try discriminate; subst r; try reflexivity; inversion Hg.
Qed.

Lemma success_Stop_pre (c : Call) :
  genuine c -> succeeded MStop c = true ->
  _stopped (call_pre c) = false.
Proof.
  unfold genuine, succeeded.
  destruct c as [[] [[] []] r post]; cbn; intros Hg Hr;
    try discriminate; subst r; try reflexivity; inversion Hg.
Qed.

Lemma Forall_successes (m : Method) (P : Call -> Prop) (l : list Call) :
  (forall c, genuine c -> succeeded m c = true -> P c) ->
  Forall genuine l -> Forall P (successes m l).
Proof.
  intros HP Hl. apply Forall_forall. intros c Hc.
  apply filter_In in Hc. destruct Hc as [Hin Hs].
  apply HP; [|exact Hs].
  rewrite Forall_forall in Hl. now apply Hl.
Qed.

(** C4.  Over every finite sequence of [Start()], [Stop()] and teardown
    calls on a fresh guard, counting the calls the hook issues too: at most
    one [Start] call returns [true], and it was entered in NotStarted; at
    most one [Stop] call returns [true], and it was entered in NotStarted or
    Started, never in Stopped.  [Stop] does return [true] from both. *)
Theorem at_most_one_success (ops : list Op) :
  let cs := calls (run ops new_StartStop) in
  length (successes MStart cs) <= 1 /\
  Forall (fun c => lifecycle (call_pre c) = State.NotStarted)
         (successes MStart cs) /\
  length (successes MStop cs) <= 1 /\
  Forall (fun c => (lifecycle (call_pre c) = State.NotStarted \/
                    lifecycle (call_pre c) = State.Started) /\
                   lifecycle (call_pre c) <> State.Stopped)
         (successes MStop cs) /\
  retval (Stop (mkStartStop false false)) = true /\
  retval (Stop (mkStartStop true false)) = true.
Proof.
  intros cs.
  pose proof (successes_bound ops new_StartStop) as [HS HT].
  pose proof (calls_run_genuine ops new_StartStop) as Hgen.
  fold cs in HS, HT, Hgen. cbn in HS, HT.
  repeat apply conj; try assumption; try reflexivity.
  - apply Forall_successes; [apply success_Start_pre | exact Hgen].
  - apply Forall_successes; [|exact Hgen].
    intros c Hc Hs. pose proof (success_Stop_pre c Hc Hs) as Hpre.
    rewrite lifecycle_NotStarted, lifecycle_Started, lifecycle_Stopped.
    split; [|congruence].
    destruct (_started (call_pre c)); auto.
Qed.

(** ** Monotonic flags *)

Lemma trajectory_head (ops : list Op) (g : StartStop) :
  exists l, trajectory ops g = g :: l.
Proof. destruct ops; eexists; reflexivity. Qed.

Lemma rises_step (f : StartStop -> bool) (a b : StartStop)
    (l : list StartStop) :
  rises f (a :: b :: l) =
  (if negb (f a) && f b then 1 else 0) + rises f (b :: l).
Proof. reflexivity. Qed.

Section Monotone.
Variable f : StartStop -> bool.
Hypothesis f_mono : forall o g, f g = true -> f (after (exec o g)) = true.

(** A flag that no call clears rises at most once, and not at all once
    it is set. *)
Lemma rises_bound (ops : list Op) :
  forall g, rises f (trajectory ops g) <= (if f g then 0 else 1).
Proof.
  induction ops as [|o ops IH]; intros g.
  - cbn. destruct (f g); lia.
  - cbn [trajectory].
    specialize (IH (after (exec o g))).
    destruct (trajectory_head ops (after (exec o g))) as [l Hl].
    rewrite Hl in *. rewrite rises_step.
    revert IH. generalize (rises f (after (exec o g) :: l)). intros n.
    destruct (f g) eqn:Hfg.
    + rewrite (f_mono o g Hfg). cbn. lia.
    + destruct (f (after (exec o g))); cbn; lia.
Qed.
End Monotone.

Lemma started_mono (o : Op) (g : StartStop) :
  _started g = true -> _started (after (exec o g)) = true.
Proof. destruct g as [[] []], o; cbn; congruence. Qed.

Lemma stopped_mono (o : Op) (g : StartStop) :
  _stopped g = true -> _stopped (after (exec o g)) = true.
Proof. intros H. now rewrite (exec_stopped o g H). Qed.

(** C5.  No call ([Start()], [Stop()] or the teardown hook) turns a set flag
    back to [false], whatever the object; and over the lifetime of a guard,
    from its construction through any sequence of calls, each flag goes from
    [false] to [true] at most once. *)
Theorem flags_monotonic :
  (forall o g, _started g = true -> _started (after (exec o g)) = true) /\
  (forall o g, _stopped g = true -> _stopped (after (exec o g)) = true) /\
  (forall ops,
     rises _started (trajectory ops new_StartStop) <= 1 /\
     rises _stopped (trajectory ops new_StartStop) <= 1).
Proof.
  split; [exact started_mono|]. split; [exact stopped_mono|].
  intros ops. split.
  - apply (rises_bound _started started_mono ops new_StartStop).
  - apply (rises_bound _stopped stopped_mono ops new_StartStop).
Qed.

Lemma flags_monotonic_witness :
  _started (after (exec OpStop (mkStartStop true false))) = true /\
  _stopped (after (exec OpStart (mkStartStop false true))) = true /\
  rises _started
    (trajectory [OpStart; OpStop; OpStart; OpDestructorCheck] new_StartStop)
    <= 1.
Proof.
  destruct flags_monotonic as (Hs & Ht & Hr).
  split; [apply Hs; reflexivity|].
  split; [apply Ht; reflexivity|].
  apply Hr.
Defined.

(** ** The teardown hook *)

(** C6.  [DestructorCheck()] on a guard that is started and not stopped
    leaves it Stopped ([_stopped] set, [_started] kept), through one
    successful [Stop] call; on a guard with both flags clear it changes
    nothing, so the guard stays NotStarted and does not become Stopped. *)
Theorem DestructorCheck_teardown_law (g : StartStop) :
  (_started g = true /\ _stopped g = false ->
     let g' := after (DestructorCheck g) in
     _stopped g' = true /\ _started g' = true /\
     lifecycle g' = State.Stopped /\
     calls (DestructorCheck g) = [mkCall MStop g true g']) /\
  (_started g = false /\ _stopped g = false ->
     let g' := after (DestructorCheck g) in
     g' = g /\ lifecycle g' = State.NotStarted /\
     lifecycle g' <> State.Stopped /\
     calls (DestructorCheck g) = []).
Proof.
  destruct g as [s t]; cbn [_started _stopped].
  split; intros [-> ->]; cbn; repeat split; discriminate.
Qed.

Lemma DestructorCheck_teardown_law_witness :
  lifecycle (after (DestructorCheck (mkStartStop true false)))
    = State.Stopped /\
  after (DestructorCheck new_StartStop) = new_StartStop.
Proof.
  split.
  - apply (proj1 (DestructorCheck_teardown_law (mkStartStop true false))).
    split; reflexivity.
  - apply (proj2 (DestructorCheck_teardown_law new_StartStop)).
    split; reflexivity.
Defined.

(** C9.  After [DestructorCheck()] the guard is never started without being
    stopped, and a second [DestructorCheck()] right after the first changes
    nothing (and calls nothing). *)
Theorem DestructorCheck_idempotent (g : StartStop) :
  let g' := after (DestructorCheck g) in
  (_started g' = true -> _stopped g' = true) /\
  lifecycle g' <> State.Started /\
  DestructorCheck g' = (tt, g', []).
Proof.
  destruct g as [[] []]; cbn; repeat split; auto; discriminate.
Qed.

Lemma DestructorCheck_idempotent_witness :
  let g' := after (DestructorCheck (mkStartStop true false)) in
  _stopped g' = true /\ after (DestructorCheck g') = g'.
Proof.
  destruct (DestructorCheck_idempotent (mkStartStop true false))
    as (Himp & _ & Hidem).
  split.
  - apply Himp. reflexivity.
  - cbv zeta. rewrite Hidem. reflexivity.
Defined.

(** C10.  On a guard with both flags clear, [DestructorCheck()] followed by
    [Start()] is indistinguishable from [Start()] alone (same result, same
    object, same calls): [Start()] still returns [true] and the guard
    becomes Started. *)
Theorem DestructorCheck_unstarted_then_Start (g : StartStop) :
  _started g = false ->
  _stopped g = false ->
  (DestructorCheck ;; Start) g = Start g /\
  retval (Start (after (DestructorCheck g))) = true /\
  lifecycle (after (Start (after (DestructorCheck g)))) = State.Started.
Proof.
  destruct g as [s t]; cbn [_started _stopped]; intros -> ->.
  repeat split.
Qed.

Lemma DestructorCheck_unstarted_then_Start_witness :
  (DestructorCheck ;; Start) new_StartStop = Start new_StartStop /\
  retval (Start (after (DestructorCheck new_StartStop))) = true /\
  lifecycle (after (Start (after (DestructorCheck new_StartStop))))
    = State.Started.
Proof.
  apply (DestructorCheck_unstarted_then_Start new_StartStop); reflexivity.
Defined.

(** ** Repeated calls and failures *)

(** C7.  On a freshly constructed guard, two [Stop()] calls in a row return
    [(true, false)], and two [Start()] calls in a row return
    [(true, false)]. *)
Theorem twice_in_a_row :
  retval ((a <- Stop ;; b <- Stop ;; ret (a, b)) new_StartStop)
    = (true, false) /\
  retval ((a <- Start ;; b <- Start ;; ret (a, b)) new_StartStop)
    = (true, false).
Proof. split; reflexivity. Qed.

(** C8.  [Start()] and [Stop()] yield a result on every object: the only
    outcomes are a returned boolean and the object after the call (no
    exception, abort or logging statement occurs in either body), and on a
    [false] return the object is the same as before the call. *)
Theorem failure_is_silent (g : StartStop) :
  (exists r g', Start g = (r, g', [mkCall MStart g r g']) /\
                (r = false -> g' = g)) /\
  (exists r g', Stop g = (r, g', [mkCall MStop g r g']) /\
                (r = false -> g' = g)).
Proof.
  split.
  - rewrite Start_eq. destruct (_started g || _stopped g).
    + exists false, g. split; [reflexivity | trivial].
    + eexists true, _. split; [reflexivity | discriminate].
  - rewrite Stop_eq. destruct (_stopped g).
    + exists false, g. split; [reflexivity | trivial].
    + eexists true, _. split; [reflexivity | discriminate].
Qed.

Lemma failure_is_silent_witness :
  after (Start (mkStartStop true false)) = mkStartStop true false /\
  after (Stop (mkStartStop false true)) = mkStartStop false true.
Proof.
  split.
  - destruct (failure_is_silent (mkStartStop true false))
      as [(r & g' & Heq & Hsame) _].
    rewrite Heq. change (g' = mkStartStop true false).
    apply Hsame. now inversion Heq.
  - destruct (failure_is_silent (mkStartStop false true))
      as [_ (r & g' & Heq & Hsame)].
    rewrite Heq. change (g' = mkStartStop false true).
    apply Hsame. now inversion Heq.
Defined.

(** ** Further properties of the class *)

Lemma run_started_mono (ops : list Op) :
  forall g, _started g = true -> _started (after (run ops g)) = true.
Proof.
  induction ops as [|o ops IH]; intros g Hg.
  - exact Hg.
  - rewrite after_run_cons. apply IH, started_mono, Hg.
Qed.

Lemma run_stopped_mono (ops : list Op) :
  forall g, _stopped g = true -> _stopped (after (run ops g)) = true.
Proof.
  induction ops as [|o ops IH]; intros g Hg.
  - exact Hg.
  - rewrite after_run_cons. apply IH, stopped_mono, Hg.
Qed.

(** Replace one owner call on a known object by its outcome. *)
Ltac eval_exec :=
  repeat match goal with
    | |- context [calls (exec ?o (mkStartStop ?s ?t))] =>
        let v := eval cbv in (calls (exec o (mkStartStop s t))) in
        change (calls (exec o (mkStartStop s t))) with v
    | |- context [after (exec ?o (mkStartStop ?s ?t))] =>
        let v := eval cbv in (after (exec o (mkStartStop s t))) in
        change (after (exec o (mkStartStop s t))) with v
    end.


Lemma successes_count (ops : list Op) (g : StartStop) :
  let r := run ops g in
  length (successes MStart (calls r))
    = (if negb (_started g) && _started (after r) then 1 else 0) /\
  length (successes MStop (calls r))
    = (if negb (_stopped g) && _stopped (after r) then 1 else 0).
Proof.
  cbv zeta. revert g. induction ops as [|o ops IH]; intros g.
  - destruct g as [[] []]; split; reflexivity.
  - rewrite calls_run_cons, after_run_cons. unfold successes in *.
    rewrite !filter_app, !length_app.
    destruct g as [[] []], o; eval_exec; cbn [_started _stopped negb andb];
      match goal with
      | |- context [run ops ?g'] =>
          destruct (IH g') as [IHs IHt];
          pose proof (run_started_mono ops g') as Ms;
          pose proof (run_stopped_mono ops g') as Mt
      end;
      cbn [_started _stopped negb andb] in *;
      rewrite IHs, IHt; try rewrite (Ms eq_refl); try rewrite (Mt eq_refl);
      split; reflexivity.
Qed.

(** X2.  The flags count the history: over any sequence of owner calls from
    any object, the number of [Start] calls that returned [true] is 1 when
    [_started] went from clear to set and 0 otherwise, and likewise for
    [Stop] (hook-issued calls included) and [_stopped]. *)
Theorem flags_count_successes (ops : list Op) (g : StartStop) :
  let r := run ops g in
  length (successes MStart (calls r))
    = (if negb (_started g) && _started (after r) then 1 else 0) /\
  length (successes MStop (calls r))
    = (if negb (_stopped g) && _stopped (after r) then 1 else 0).
Proof. exact (successes_count ops g). Qed.

(** A running guard whose lifetime ends with the hook sees a successful
    [Stop]. *)
Lemma running_gets_stopped (ops : list Op) :
  forall g,
    _started g = true -> _stopped g = false ->
    existsb (succeeded MStop)
            (calls (run (ops ++ [OpDestructorCheck]) g)) = true.
Proof.
  induction ops as [|o ops IH]; intros [s t]; cbn [_started _stopped];
    intros -> ->.
  - reflexivity.
  - rewrite <- app_comm_cons, calls_run_cons, existsb_app.
    destruct o; eval_exec; cbn [existsb succeeded call_method call_ret orb].
    + now apply IH.
    + reflexivity.
    + reflexivity.
Qed.

Lemma after_DestructorCheck_safe (g : StartStop) :
  _started (after (DestructorCheck g)) = true ->
  _stopped (after (DestructorCheck g)) = true.
Proof. destruct g as [[] []]; cbn; congruence. Qed.

Lemma after_run_DestructorCheck (g : StartStop) :
  after (run [OpDestructorCheck] g) = after (DestructorCheck g).
Proof. now rewrite after_run_cons. Qed.

(** X3.  Paired start and stop: over any sequence of owner calls that ends
    with the teardown hook, from any object, every [Start] call that
    returned [true] is followed later by a [Stop] call that returned [true];
    in particular there are at least as many successful stops as starts. *)
Theorem every_Start_gets_its_Stop (ops : list Op) (g : StartStop) :
  let cs := calls (run (ops ++ [OpDestructorCheck]) g) in
  paired cs = true /\
  length (successes MStart cs) <= length (successes MStop cs).
Proof.
  cbv zeta. split.
  - revert g. induction ops as [|o ops IH]; intros g.
    + destruct g as [[] []]; reflexivity.
    + rewrite <- app_comm_cons, calls_run_cons.
      destruct g as [[] []], o; eval_exec;
        cbn [app paired succeeded call_method call_ret andb];
        rewrite ?IH; try reflexivity.
      now rewrite running_gets_stopped.
  - destruct (successes_count (ops ++ [OpDestructorCheck]) g) as [-> ->].
    destruct (_stopped g) eqn:Ht.
    + destruct (run_stopped (ops ++ [OpDestructorCheck]) g Ht) as [-> _].
      rewrite Ht. destruct (_started g); cbn; lia.
    + rewrite after_run_app, after_run_DestructorCheck.
      pose proof (after_DestructorCheck_safe (after (run ops g))) as Hsafe.
      destruct (_started (after (DestructorCheck (after (run ops g))))).
      * rewrite (Hsafe eq_refl). destruct (_started g); cbn; lia.
      * rewrite andb_false_r. lia.
Qed.

(** X4.  Whatever the object, the second of two consecutive [Start()] calls
    returns [false] and changes nothing, and so does the second of two
    consecutive [Stop()] calls. *)
Theorem second_call_is_noop (g : StartStop) :
  (retval (Start (after (Start g))) = false /\
   after (Start (after (Start g))) = after (Start g)) /\
  (retval (Stop (after (Stop g))) = false /\
   after (Stop (after (Stop g))) = after (Stop g)).
Proof.
  rewrite (Start_eq g), (Stop_eq g).
  destruct (_started g) eqn:Hs, (_stopped g) eqn:Ht; cbn [orb after snd fst];
    rewrite ?Start_eq, ?Stop_eq; cbn [_started _stopped orb];
    rewrite ?Hs, ?Ht; cbn; auto.
Qed.

Lemma run_without_Start (ops : list Op) :
  forall g, ~ In OpStart ops -> _started (after (run ops g)) = _started g.
Proof.
  induction ops as [|o ops IH]; intros g Hnot.
  - reflexivity.
  - rewrite after_run_cons, IH by (intros Hin; apply Hnot; now right).
    destruct o.
    + exfalso. apply Hnot. now left.
    + destruct g as [[] []]; reflexivity.
    + destruct g as [[] []]; reflexivity.
Qed.

Lemma run_only_Start (ops : list Op) :
  forall g, Forall (eq OpStart) ops ->
            _stopped (after (run ops g)) = _stopped g.
Proof.
  induction ops as [|o ops IH]; intros g Hall.
  - reflexivity.
  - inversion Hall as [|o' ops' Ho Hrest]; subst.
    rewrite after_run_cons, IH by assumption.
    destruct g as [[] []]; reflexivity.
Qed.

(** X5.  Only [Start()] sets [_started] and [Start()] never sets
    [_stopped]: a sequence of owner calls without [Start()] leaves
    [_started] as it was (neither [Stop()] nor the teardown hook starts a
    guard), and a sequence of [Start()] calls alone leaves [_stopped] as it
    was. *)
Theorem flags_frame (ops : list Op) (g : StartStop) :
  (~ In OpStart ops -> _started (after (run ops g)) = _started g) /\
  (Forall (eq OpStart) ops -> _stopped (after (run ops g)) = _stopped g).
Proof.
  split; [apply run_without_Start | apply run_only_Start].
Qed.

Lemma flags_frame_witness :
  _started (after (run [OpStop; OpDestructorCheck; OpStop] new_StartStop))
    = false /\
  _stopped (after (run [OpStart; OpStart] new_StartStop)) = false.
Proof.
  split.
  - apply (proj1 (flags_frame [OpStop; OpDestructorCheck; OpStop]
                              new_StartStop)).
    intros [H | [H | [H | []]]]; discriminate.
  - apply (proj2 (flags_frame [OpStart; OpStart] new_StartStop)).
    repeat constructor.
Defined.

(** X6.  A fresh guard ends up with [_started] set exactly when the first
    [Start()]/[Stop()] call its owner makes is a [Start()]: teardown hooks
    before it do not matter, and a guard stopped first is never started. *)
Theorem started_iff_Start_first (ops : list Op) :
  _started (after (run ops new_StartStop)) = starts_first ops.
Proof.
  induction ops as [|o ops IH].
  - reflexivity.
  - rewrite after_run_cons. destruct o; unfold new_StartStop; eval_exec.
    + now apply run_started_mono.
    + now rewrite (proj1 (run_stopped ops (mkStartStop false true) eq_refl)).
    + exact IH.
Qed.

(** X7.  An explicit [Stop()] anywhere in a sequence of owner calls leaves
    the guard with [_stopped] set at the end, whatever the object the
    sequence started from and whatever follows. *)
Theorem Stop_anywhere_stops (ops : list Op) (g : StartStop) :
  In OpStop ops -> _stopped (after (run ops g)) = true.
Proof.
  revert g. induction ops as [|o ops IH]; intros g Hin.
  - destruct Hin.
  - rewrite after_run_cons. destruct Hin as [-> | Hin].
    + apply run_stopped_mono. destruct g as [[] []]; reflexivity.
    + now apply IH.
Qed.

Lemma Stop_anywhere_stops_witness :
  _stopped (after (run [OpDestructorCheck; OpStop; OpStart] new_StartStop))
    = true.
Proof.
  apply (Stop_anywhere_stops [OpDestructorCheck; OpStop; OpStart]).
  right. left. reflexivity.
Defined.

(** X8.  The three-state view is a sound abstraction of the two flags: the
    state after any owner call is the one the spec's transition table gives
    for the state before it, so over any sequence the final state is the
    table folded over the calls; and the values [Start()] and [Stop()]
    return depend on the state alone. *)
Theorem lifecycle_follows_spec_transition (ops : list Op) (g : StartStop) :
  (forall o, lifecycle (after (exec o g)) = spec_transition o (lifecycle g)) /\
  lifecycle (after (run ops g))
    = fold_left (fun st o => spec_transition o st) ops (lifecycle g) /\
  retval (Start g)
    = match lifecycle g with State.NotStarted => true | _ => false end /\
  retval (Stop g)
    = match lifecycle g with State.Stopped => false | _ => true end.
Proof.
  assert (Hstep : forall o h,
             lifecycle (after (exec o h)) = spec_transition o (lifecycle h))
    by (intros o [[] []]; destruct o; reflexivity).
  split; [intros o; apply Hstep|]. split.
  - revert g. induction ops as [|o ops IH]; intros g.
    + reflexivity.
    + rewrite after_run_cons, IH, Hstep. reflexivity.
  - destruct g as [[] []]; split; reflexivity.
Qed.
